(** * aleph_request.py: MARC21 retrieval, caching and field extraction

    A shallow embedding of [src/aleph_request.py] (Python 2, PyZ3950 and
    pymarc) and the properties its specification states about it.

    - [Marc]: the part of pymarc's record and field interface the module
      calls: [get_fields], [field[code]] and [code in field].
    - [Person]: [__check_for_gnd] and the three person extractors.
    - [Scalar], [Composite]: the single-valued and the dict-valued
      extractors, each loop written as a left fold over the occurrences.
    - [Fetch]: [get_marc21] and [get_records] over an explicit world
      (file system, Z39.50 server, stderr) in a state-and-exception monad. *)

From Stdlib Require Import Strings.String Strings.Ascii Strings.Byte ZArith.
From stdpp Require Import base option list strings gmap.

Local Open Scope string_scope.
Local Open Scope list_scope.

(** ** pymarc's record interface *)

Module Marc.

(** A data field: its tag and its subfields in record order, each a code
    and a value.  A code may repeat inside one field. *)
Record Field := mkField {
  tag : string;
  subfields : list (string * string)
}.

(** A decoded record is the list of its fields, in record order. *)
Abbreviation MarcRecord := (list Field).

(** [Record.get_fields(t)]: [[f for f in self.fields if f.tag in args]]. *)
Definition get_fields (records : MarcRecord) (t : string) : list Field :=
  filter (λ f, tag f = t) records.

(** [Field.get_subfields(code)]: the values carried under [code]. *)
Definition get_subfields (f : Field) (code : string) : list string :=
  snd <$> filter (λ sf, sf.1 = code) (subfields f).

(** [field[code]]: the first value under [code], [None] when there is
    none. *)
Definition getitem (f : Field) (code : string) : option string :=
  head (get_subfields f code).

(** [code in field]. *)
Definition contains (f : Field) (code : string) : bool :=
  bool_decide (get_subfields f code ≠ []).

End Marc.

Import Marc.

(** [s.replace(old, new)] for a one-character [old]. *)
Fixpoint str_replace (old : ascii) (new : string) (s : string) : string :=
  match s with
  | EmptyString => EmptyString
  | String c s' =>
      if Ascii.eqb c old then new +:+ str_replace old new s'
      else String c (str_replace old new s')
  end.

(** The characters of a string. *)
Fixpoint chars (s : string) : list ascii :=
  match s with
  | EmptyString => []
  | String c s' => c :: chars s'
  end.

(** Python's [for x in xs: body] over the mutable locals [st]. *)
Definition for_each {S A : Type} (xs : list A) (body : S → A → S) (st : S) : S :=
  fold_left body xs st.

(** ** Persons *)

Module Person.

(** The dict [{"GND": .., "name": .., "date": .., "role": ..}]. *)
Record Person := mkPerson {
  GND : string;
  name : option string;
  date : string;
  role : string
}.

Definition __check_for_gnd (marcField : Field) (GNDIndex : string) : Person :=
  let date :=
    match getitem marcField "d" with
    | Some d => d
    | None => ""
    end in
  let GND :=
    match getitem marcField GNDIndex with
    | None => "no_GND"
    | Some g => str_replace "," "" g
    end in
  let role := "" in
  let role :=
    match getitem marcField "4" with
    | Some r => r
    | None => role
    end in
  {| GND := GND; name := getitem marcField "a"; date := date; role := role |}.

Definition get_author (records : MarcRecord) : list Person :=
  let author := [] in
  let author :=
    for_each (get_fields records "100")
      (λ author field, author ++ [__check_for_gnd field "0"]) author in
  let author :=
    for_each (get_fields records "700")
      (λ author field,
         let person := __check_for_gnd field "0" in
         if String.eqb (role person) "aut" then author ++ [person] else author)
      author in
  author.

Definition get_recipient (records : MarcRecord) : list Person :=
  let recipient := [] in
  for_each (get_fields records "700")
    (λ recipient field,
       let person := __check_for_gnd field "0" in
       if String.eqb (role person) "rcp" then recipient ++ [person] else recipient)
    recipient.

Definition get_mentioned_persons (records : MarcRecord) : list Person :=
  let mentioned := [] in
  for_each (get_fields records "600")
    (λ mentioned field, mentioned ++ [__check_for_gnd field "0"]) mentioned.

(** [l'] is [l] with [x] put in at some position. *)
Definition contributes {A : Type} (x : A) (l l' : list A) : Prop :=
  ∃ l1 l2, l = l1 ++ l2 ∧ l' = l1 ++ x :: l2.

End Person.

(** ** Scalar extractors *)

Module Scalar.

Definition get_date (records : MarcRecord) : option string :=
  let date := None in
  for_each (get_fields records "046")
    (λ date field, getitem field "c") date.

Definition get_creation_form (records : MarcRecord) : option string :=
  let creation_information := None in
  for_each (get_fields records "250")
    (λ creation_information field,
       if contains field "a" then getitem field "a" else creation_information)
    creation_information.

Definition get_footnote (records : MarcRecord) : option string :=
  let footnote := None in
  for_each (get_fields records "500")
    (λ footnote field,
       if contains field "a" then getitem field "a" else footnote)
    footnote.

Definition get_content_info (records : MarcRecord) : option string :=
  let content_info := None in
  for_each (get_fields records "520")
    (λ content_info field,
       if contains field "a" then getitem field "a" else content_info)
    content_info.

Definition get_accompanying_material (records : MarcRecord) : option string :=
  let accompanying_material := None in
  for_each (get_fields records "525")
    (λ accompanying_material field,
       if contains field "a" then getitem field "a" else accompanying_material)
    accompanying_material.

Definition get_language (records : MarcRecord) : option string :=
  let language := None in
  for_each (get_fields records "546")
    (λ language field,
       if contains field "a" then getitem field "a" else language)
    language.

Definition get_bernoulli_work_reference (records : MarcRecord) : option string :=
  let bernoulli_work_reference := None in
  for_each (get_fields records "596")
    (λ bernoulli_work_reference field,
       if contains field "a" then getitem field "a" else bernoulli_work_reference)
    bernoulli_work_reference.

Definition get_emanuscript_link (records : MarcRecord) : option string :=
  let emanuscript_link := None in
  for_each (get_fields records "856")
    (λ emanuscript_link field,
       if contains field "u" then getitem field "u" else emanuscript_link)
    emanuscript_link.

(** The eight scalar extractors, with the tag and the subfield code each
    one reads. *)
Inductive extractor :=
  | Date | CreationForm | Footnote | ContentInfo
  | AccompanyingMaterial | Language | WorkReference | EmanuscriptLink.

#[global] Instance extractor_eq_dec : EqDecision extractor.
Proof. solve_decision. Defined.

Definition run (e : extractor) : MarcRecord → option string :=
  match e with
  | Date => get_date
  | CreationForm => get_creation_form
  | Footnote => get_footnote
  | ContentInfo => get_content_info
  | AccompanyingMaterial => get_accompanying_material
  | Language => get_language
  | WorkReference => get_bernoulli_work_reference
  | EmanuscriptLink => get_emanuscript_link
  end.

Definition tag_of (e : extractor) : string :=
  match e with
  | Date => "046"
  | CreationForm => "250"
  | Footnote => "500"
  | ContentInfo => "520"
  | AccompanyingMaterial => "525"
  | Language => "546"
  | WorkReference => "596"
  | EmanuscriptLink => "856"
  end.

Definition code_of (e : extractor) : string :=
  match e with
  | Date => "c"
  | EmanuscriptLink => "u"
  | _ => "a"
  end.

(** The subfield value of the last occurrence that carries [code]. *)
Definition last_present (code : string) (occurrences : list Field) : option string :=
  last (omap (λ f, getitem f code) occurrences).

End Scalar.

(** ** Composite extractors *)

Module Composite.

(** A Python dict with string keys; a value is what [field[code]] gave, a
    string or [None]. *)
Abbreviation dict := (gmap string (option string)).

(** The branch every non-leading subfield of a composite extractor takes:
    [if x is not None: x.update({k: v}) else: x = {k: v}]. *)
Definition update_or_create (x : option dict) (k : string) (v : option string)
  : option dict :=
  match x with
  | Some d => Some (<[k := v]> d)
  | None => Some {[k := v]}
  end.

Definition get_description (records : MarcRecord) : option dict :=
  let description := None in
  for_each (get_fields records "245")
    (λ description field,
       let description :=
         if contains field "a" then Some {["title" := getitem field "a"]}
         else description in
       let description :=
         if contains field "c"
         then update_or_create description "author" (getitem field "c")
         else description in
       description)
    description.

Definition get_creation_place (records : MarcRecord) : option dict :=
  let creation_place := None in
  for_each (get_fields records "751")
    (λ creation_place field,
       let creation_place :=
         if contains field "a" then Some {["place" := getitem field "a"]}
         else creation_place in
       let creation_place :=
         if contains field "0"
         then update_or_create creation_place "gnd" (getitem field "0")
         else creation_place in
       creation_place)
    creation_place.

Definition get_physical_description (records : MarcRecord) : option dict :=
  let physical_description := None in
  for_each (get_fields records "300")
    (λ physical_description field,
       let physical_description :=
         if contains field "a" then Some {["amount" := getitem field "a"]}
         else physical_description in
       let physical_description :=
         if contains field "c"
         then update_or_create physical_description "format" (getitem field "c")
         else physical_description in
       physical_description)
    physical_description.

Definition get_bibliographical_info (records : MarcRecord) : option dict :=
  let bibliographical_info := None in
  for_each (get_fields records "510")
    (λ bibliographical_info field,
       let bibliographical_info :=
         if contains field "a" then Some {["reference" := getitem field "a"]}
         else bibliographical_info in
       let bibliographical_info :=
         if contains field "i"
         then update_or_create bibliographical_info "type" (getitem field "i")
         else bibliographical_info in
       bibliographical_info)
    bibliographical_info.

Definition get_reproduction_info (records : MarcRecord) : option dict :=
  let reproduction_info := None in
  for_each (get_fields records "533")
    (λ reproduction_info field,
       let reproduction_info :=
         if contains field "a" then Some {["type" := getitem field "a"]}
         else reproduction_info in
       let reproduction_info :=
         if contains field "b"
         then update_or_create reproduction_info "place" (getitem field "b")
         else reproduction_info in
       let reproduction_info :=
         if contains field "c"
         then update_or_create reproduction_info "institution" (getitem field "c")
         else reproduction_info in
       let reproduction_info :=
         if contains field "d"
         then update_or_create reproduction_info "year" (getitem field "d")
         else reproduction_info in
       let reproduction_info :=
         if contains field "n"
         then update_or_create reproduction_info "additional" (getitem field "n")
         else reproduction_info in
       reproduction_info)
    reproduction_info.

(** The five composite extractors with their tag, their leading subfield
    (the one whose branch assigns a new dict) and the other subfields, each
    a code with the key it is stored under. *)
Inductive extractor :=
  | Description | CreationPlace | PhysicalDescription
  | BibliographicalInfo | ReproductionInfo.

Definition run (e : extractor) : MarcRecord → option dict :=
  match e with
  | Description => get_description
  | CreationPlace => get_creation_place
  | PhysicalDescription => get_physical_description
  | BibliographicalInfo => get_bibliographical_info
  | ReproductionInfo => get_reproduction_info
  end.

Definition tag_of (e : extractor) : string :=
  match e with
  | Description => "245"
  | CreationPlace => "751"
  | PhysicalDescription => "300"
  | BibliographicalInfo => "510"
  | ReproductionInfo => "533"
  end.

Definition leading (e : extractor) : string * string :=
  match e with
  | Description => ("a", "title")
  | CreationPlace => ("a", "place")
  | PhysicalDescription => ("a", "amount")
  | BibliographicalInfo => ("a", "reference")
  | ReproductionInfo => ("a", "type")
  end.

Definition others (e : extractor) : list (string * string) :=
  match e with
  | Description => [("c", "author")]
  | CreationPlace => [("0", "gnd")]
  | PhysicalDescription => [("c", "format")]
  | BibliographicalInfo => [("i", "type")]
  | ReproductionInfo =>
      [("b", "place"); ("c", "institution"); ("d", "year"); ("n", "additional")]
  end.

#[global] Instance extractor_eq_dec : EqDecision extractor.
Proof. solve_decision. Defined.

(** The code listed with key [k] in a table of codes and keys. *)
Fixpoint key_code (table : list (string * string)) (k : string) : option string :=
  match table with
  | [] => None
  | (c, k') :: table' => if decide (k' = k) then Some c else key_code table' k
  end.

(** The subfield code stored under key [k], if [k] is a key of [e]. *)
Definition code_for (e : extractor) (k : string) : option string :=
  key_code (leading e :: others e) k.

(** One pass of a loop body over the non-leading subfields. *)
Definition merge_others (f : Field) (table : list (string * string))
  (x : option dict) : option dict :=
  fold_left
    (λ x ck, if contains f ck.1 then update_or_create x ck.2 (getitem f ck.1) else x)
    table x.

(** The loop body of extractor [e], by its tables. *)
Definition step (e : extractor) (x : option dict) (f : Field) : option dict :=
  merge_others f (others e)
    (if contains f (leading e).1
     then Some {[(leading e).2 := getitem f (leading e).1]}
     else x).

(** The value under key [k] of an extractor's result, [None] both when the
    result is [None] and when the dict lacks the key. *)
Definition lookup_key (x : option dict) (k : string) : option (option string) :=
  x ≫= (λ d, d !! k).

End Composite.

(** ** Fetching and decoding *)

Module Fetch.

Abbreviation bytes := (list byte).

(** What the module's calls into the operating system and the network act
    on.  [io_error p] is the error the operating system answers when [p] is
    opened or created (permissions, a missing parent, a full disk), [None]
    when it grants access.  [z3950 q] is what the server at
    aleph.unibas.ch:9909 (database dsv05, syntax USMARC) answers to the PQF
    query [q]: the records found, or the error of a failed connection or
    search.  [searches] logs the queries sent, [stderr] what was written to
    the error channel. *)
Record World := mkWorld {
  dirs : gset string;
  files : gmap string bytes;
  io_error : string → option string;
  z3950 : string → string + list bytes;
  searches : list string;
  stderr : list string
}.

(** A call returns, raises an exception (kept as its [str(e)]) or ends the
    process with a status. *)
Inductive outcome (A : Type) :=
  | Ret (a : A)
  | Raise (e : string)
  | Exit (status : Z).
Arguments Ret {A} a.
Arguments Raise {A} e.
Arguments Exit {A} status.

Definition M (A : Type) : Type := World → outcome A * World.

Definition ret {A} (a : A) : M A := λ w, (Ret a, w).

Definition bind {A B} (m : M A) (k : A → M B) : M B :=
  λ w, match m w with
       | (Ret a, w') => k a w'
       | (Raise e, w') => (Raise e, w')
       | (Exit n, w') => (Exit n, w')
       end.

Notation "'let!' x := m 'in' k" := (bind m (λ x, k))
  (at level 10, x name, m at level 100, k at level 200, only parsing).
Notation "'do!' m 'in' k" := (bind m (λ _, k))
  (at level 10, m at level 100, k at level 200, only parsing).

Definition raise {A} (e : string) : M A := λ w, (Raise e, w).

(** [exit(n)]: nothing after it runs, and [except Exception] does not
    catch it. *)
Definition exit {A} (n : Z) : M A := λ w, (Exit n, w).

(** [try: m except Exception as e: h e]. *)
Definition try_except {A} (m : M A) (h : string → M A) : M A :=
  λ w, match m w with
       | (Raise e, w') => h e w'
       | r => r
       end.

(** Whether [p] names a directory or a file, and whether it names a file. *)
Definition path_exists (w : World) (p : string) : bool :=
  bool_decide (p ∈ dirs w) || bool_decide (is_Some (files w !! p)).

Definition is_file (w : World) (p : string) : bool :=
  bool_decide (is_Some (files w !! p)).

(** [os.path.exists(p)]. *)
Definition os_path_exists (p : string) : M bool :=
  λ w, (Ret (path_exists w p), w).

(** [os.makedirs(p)]. *)
Definition os_makedirs (p : string) : M unit :=
  λ w, match io_error w p with
       | Some e => (Raise e, w)
       | None =>
           (Ret (), mkWorld ({[p]} ∪ dirs w) (files w) (io_error w) (z3950 w)
                       (searches w) (stderr w))
       end.

(** [os.path.isfile(p)]. *)
Definition os_path_isfile (p : string) : M bool :=
  λ w, (Ret (is_file w p), w).

(** [f = codecs.open(p, 'rb'); data = f.read(); f.close()]. *)
Definition read_file (p : string) : M bytes :=
  λ w, match io_error w p with
       | Some e => (Raise e, w)
       | None =>
           match files w !! p with
           | Some data => (Ret data, w)
           | None => (Raise ("No such file or directory: " +:+ p), w)
           end
       end.

(** [f = codecs.open(p, 'w'); f.write(data); f.close()]. *)
Definition write_file (p : string) (data : bytes) : M unit :=
  λ w, match io_error w p with
       | Some e => (Raise e, w)
       | None =>
           (Ret (), mkWorld (dirs w) (<[p := data]> (files w)) (io_error w)
                       (z3950 w) (searches w) (stderr w))
       end.

(** [conn = zoom.Connection(..); res = conn.search(zoom.Query('PQF', q))]. *)
Definition zoom_search (q : string) : M (list bytes) :=
  λ w, let w' := mkWorld (dirs w) (files w) (io_error w) (z3950 w)
                    (searches w ++ [q]) (stderr w) in
       match z3950 w q with
       | inl e => (Raise e, w')
       | inr res => (Ret res, w')
       end.

(** [bytes(res[0].data)]. *)
Definition first_record (res : list bytes) : M bytes :=
  match res with
  | r :: _ => ret r
  | [] => raise "index out of range"
  end.

(** [sys.stderr.write(s)]. *)
Definition stderr_write (s : string) : M unit :=
  λ w, (Ret (), mkWorld (dirs w) (files w) (io_error w) (z3950 w)
                  (searches w) (stderr w ++ [s])).

Definition newline : string := String "010"%char EmptyString.

Definition cache_path : string := "marc_cache".

(** The naming convention for cache files: [sys_id.marc]. *)
Definition file_path_of (sys_id : string) : string :=
  cache_path +:+ "/" +:+ sys_id +:+ ".marc".

(** The body of the [try] block of [get_marc21]. *)
Definition get_marc21_try (sys_id : string) : M bytes :=
  let file_path := cache_path +:+ "/" +:+ sys_id +:+ ".marc" in
  let! cache_exists := os_path_exists cache_path in
  do! (if negb cache_exists then os_makedirs cache_path else ret ()) in
  let! file_exists := os_path_isfile file_path in
  if file_exists then
    let! marc21 := read_file file_path in
    ret marc21
  else
    let! res := zoom_search ("@attr 1=1032 " +:+ sys_id) in
    let! marc21 := first_record res in
    do! write_file file_path marc21 in
    ret marc21.

Definition get_marc21 (sys_id : string) : M bytes :=
  try_except (get_marc21_try sys_id)
    (λ e,
       do! stderr_write ("Getting Marc21 failed: " +:+ e +:+ " for sysid: "
                         +:+ sys_id +:+ newline) in
       exit 1).

Section Decoder.

(** [MARCReader(marc21, force_utf8=True, to_unicode=True)], pymarc's
    decoder: the records of the byte stream in order, each decoded or the
    error its decoding raises. *)
Variable MARCReader : bytes → list (string + MarcRecord).

(** [next(reader)]; an exhausted reader raises [StopIteration]. *)
Definition next (reader : list (string + MarcRecord)) : M MarcRecord :=
  match reader with
  | inr r :: _ => ret r
  | inl e :: _ => raise e
  | [] => raise ""
  end.

Definition get_records (marc21 : bytes) : M MarcRecord :=
  try_except
    (let reader := MARCReader marc21 in
     next reader)
    (λ e,
       do! stderr_write "Error reading Marc21 data." in
       do! stderr_write e in
       exit 2).

End Decoder.

(** The cache holds [data] for [sys_id] and the file can be opened. *)
Definition cached (w : World) (sys_id : string) (data : bytes) : Prop :=
  path_exists w cache_path = true
  ∧ files w !! file_path_of sys_id = Some data
  ∧ io_error w (file_path_of sys_id) = None.

(** The cache directory is there or can be made. *)
Definition cache_ready (w : World) : Prop :=
  path_exists w cache_path = true ∨ io_error w cache_path = None.

(** The failures a fetch of [sys_id] can meet in [w], each with the text of
    the exception: the cache directory cannot be made, the cache file
    cannot be read, the search fails, it finds nothing, or the cache file
    cannot be written. *)
Inductive fetch_failure (sys_id : string) (w : World) : string → Prop :=
  | makedirs_fails e :
      path_exists w cache_path = false →
      io_error w cache_path = Some e →
      fetch_failure sys_id w e
  | read_fails e :
      cache_ready w →
      is_Some (files w !! file_path_of sys_id) →
      io_error w (file_path_of sys_id) = Some e →
      fetch_failure sys_id w e
  | search_fails e :
      cache_ready w →
      files w !! file_path_of sys_id = None →
      z3950 w ("@attr 1=1032 " +:+ sys_id) = inl e →
      fetch_failure sys_id w e
  | search_empty :
      cache_ready w →
      files w !! file_path_of sys_id = None →
      z3950 w ("@attr 1=1032 " +:+ sys_id) = inr [] →
      fetch_failure sys_id w "index out of range"
  | write_fails e r rest :
      cache_ready w →
      files w !! file_path_of sys_id = None →
      z3950 w ("@attr 1=1032 " +:+ sys_id) = inr (r :: rest) →
      io_error w (file_path_of sys_id) = Some e →
      fetch_failure sys_id w e.

(** The failures of decoding: the first record is malformed, or there is
    no record. *)
Inductive decode_failure : list (string + MarcRecord) → string → Prop :=
  | malformed e rest : decode_failure (inl e :: rest) e
  | no_record : decode_failure [] "".

(** The same world with another server behind the network. *)
Definition with_server (z : string → string + list bytes) (w : World) : World :=
  mkWorld (dirs w) (files w) (io_error w) z (searches w) (stderr w).

(** The server cannot be reached: every search fails. *)
Definition unreachable : string → string + list bytes :=
  λ _, inl "Connection refused".

End Fetch.

(** * Properties *)

(** ** Loops and the record interface *)

Section Loops.
Context {S A B : Type}.

Lemma for_each_app (xs ys : list A) (body : S → A → S) (st : S) :
  for_each (xs ++ ys) body st = for_each ys body (for_each xs body st).
Proof. apply fold_left_app. Qed.

Lemma for_each_snoc (xs : list A) (x : A) (body : S → A → S) (st : S) :
  for_each (xs ++ [x]) body st = body (for_each xs body st) x.
Proof. by rewrite for_each_app. Qed.

(** A loop that appends [g x] for the elements that pass [keep] collects
    them in the order of the list. *)
Lemma for_each_collect (keep : A → bool) (g : A → B) (xs : list A) (acc : list B) :
  for_each xs (λ acc x, if keep x then acc ++ [g x] else acc) acc
  = acc ++ (g <$> filter (λ x, keep x = true) xs).
Proof.
  revert acc. induction xs as [|x xs IH]; intros acc; simpl.
  - by rewrite app_nil_r.
  - rewrite IH, filter_cons. destruct (keep x) eqn:Hk.
    + rewrite decide_True by done. by rewrite fmap_cons, <- app_assoc.
    + rewrite decide_False by done. done.
Qed.

Lemma for_each_append (g : A → B) (xs : list A) (acc : list B) :
  for_each xs (λ acc x, acc ++ [g x]) acc = acc ++ (g <$> xs).
Proof.
  revert acc. induction xs as [|x xs IH]; intros acc; simpl.
  - by rewrite app_nil_r.
  - by rewrite IH, <- app_assoc.
Qed.

End Loops.

Lemma get_fields_app (r1 r2 : MarcRecord) (t : string) :
  get_fields (r1 ++ r2) t = get_fields r1 t ++ get_fields r2 t.
Proof. apply filter_app. Qed.

Lemma get_fields_cons (f : Field) (r : MarcRecord) (t : string) :
  get_fields (f :: r) t = if decide (tag f = t) then f :: get_fields r t else get_fields r t.
Proof. unfold get_fields. rewrite filter_cons. by destruct (decide _). Qed.

(** [code in field] is true exactly when [field[code]] is not [None]. *)
Lemma contains_getitem (f : Field) (code : string) :
  contains f code = true ↔ is_Some (getitem f code).
Proof.
  unfold contains, getitem. rewrite bool_decide_eq_true.
  destruct (get_subfields f code) as [|v vs]; simpl.
  - split; [done | intros [? ?]; done].
  - split; [eauto | done].
Qed.

Lemma contains_false_getitem (f : Field) (code : string) :
  contains f code = false ↔ getitem f code = None.
Proof.
  rewrite <- not_true_iff_false, contains_getitem, <- eq_None_not_Some. done.
Qed.

(** ** [str.replace] *)

(** Replacing a character by the empty string keeps the other characters,
    in order. *)
Lemma chars_str_replace_empty (old : ascii) (s : string) :
  chars (str_replace old "" s) = filter (λ c, c ≠ old) (chars s).
Proof.
  induction s as [|c s IH]; [done|].
  cbn [str_replace chars]. rewrite filter_cons.
  destruct (Ascii.eqb_spec c old) as [->|Hne].
  - rewrite decide_False by (intros H; by apply H). done.
  - rewrite decide_True by done. cbn [chars]. by rewrite IH.
Qed.

(** ** Persons *)

Section PersonFacts.
Import Person.

Lemma role_check_for_gnd (f : Field) (idx : string) :
  role (__check_for_gnd f idx) = default "" (getitem f "4").
Proof. unfold __check_for_gnd; simpl. by destruct (getitem f "4"). Qed.

(** The role test of the person loops, read on the field. *)
Lemma role_eqb_getitem (f : Field) (idx code : string) :
  code ≠ "" →
  String.eqb (role (__check_for_gnd f idx)) code = true ↔ getitem f "4" = Some code.
Proof.
  intros Hne. rewrite String.eqb_eq, role_check_for_gnd.
  destruct (getitem f "4") as [r|]; simpl; [|split; [congruence|done]].
  split; congruence.
Qed.

Lemma filter_role (code : string) (fs : list Field) :
  code ≠ "" →
  filter (λ f, String.eqb (role (__check_for_gnd f "0")) code = true) fs
  = filter (λ f, getitem f "4" = Some code) fs.
Proof. intros Hne. apply list_filter_iff. intros f. by apply role_eqb_getitem. Qed.

Lemma get_author_unfold (records : MarcRecord) :
  get_author records
  = ((λ f, __check_for_gnd f "0") <$> get_fields records "100")
    ++ ((λ f, __check_for_gnd f "0")
          <$> filter (λ f, getitem f "4" = Some "aut") (get_fields records "700")).
Proof.
  unfold get_author.
  rewrite (for_each_append (λ f, __check_for_gnd f "0")). simpl.
  rewrite (for_each_collect
             (λ f, String.eqb (role (__check_for_gnd f "0")) "aut")
             (λ f, __check_for_gnd f "0")).
  by rewrite filter_role.
Qed.

Lemma get_recipient_unfold (records : MarcRecord) :
  get_recipient records
  = (λ f, __check_for_gnd f "0")
      <$> filter (λ f, getitem f "4" = Some "rcp") (get_fields records "700").
Proof.
  unfold get_recipient.
  rewrite (for_each_collect
             (λ f, String.eqb (role (__check_for_gnd f "0")) "rcp")
             (λ f, __check_for_gnd f "0")).
  by rewrite filter_role.
Qed.

(** C7: [__check_for_gnd] copies subfield 'a' as it is ([None] when
    absent), takes the date from 'd' and the role from '4', each the empty
    string when absent, and, when the authority subfield is absent, gives
    the identifier the fixed value ["no_GND"], which is not the empty
    string (and, being a string, not [None]). *)
Theorem check_for_gnd_person (marcField : Field) (GNDIndex : string) :
  let person := __check_for_gnd marcField GNDIndex in
  name person = getitem marcField "a"
  ∧ date person = default "" (getitem marcField "d")
  ∧ role person = default "" (getitem marcField "4")
  ∧ (getitem marcField GNDIndex = None →
     GND person = "no_GND" ∧ GND person ≠ "").
Proof.
  simpl. split; [done|]. split; [|split].
  - unfold __check_for_gnd; simpl. by destruct (getitem marcField "d").
  - apply (role_check_for_gnd marcField GNDIndex).
  - intros Habsent. unfold __check_for_gnd; simpl. by rewrite Habsent.
Qed.

Lemma check_for_gnd_person_witness :
  let marcField := mkField "100" [("a", "Euler, Leonhard"); ("d", "1707-1783")] in
  getitem marcField "0" = None
  ∧ (GND (__check_for_gnd marcField "0") = "no_GND"
     ∧ GND (__check_for_gnd marcField "0") ≠ "").
Proof.
  simpl. split; [reflexivity|].
  exact (proj2 (proj2 (proj2 (check_for_gnd_person
           (mkField "100" [("a", "Euler, Leonhard"); ("d", "1707-1783")]) "0")))
           eq_refl).
Defined.

(** C8: when the authority subfield is present, the identifier is its
    value without its commas: the same characters in the same order, the
    commas left out; ["12345,"] gives ["12345"]. *)
Theorem check_for_gnd_strips_commas (marcField : Field) (GNDIndex g : string)
  (Hpresent : getitem marcField GNDIndex = Some g) :
  chars (GND (__check_for_gnd marcField GNDIndex))
  = filter (λ c, c ≠ ","%char) (chars g)
  ∧ GND (__check_for_gnd (mkField "100" [("0", "12345,")]) "0") = "12345".
Proof.
  split; [|reflexivity].
  unfold __check_for_gnd; simpl. rewrite Hpresent.
  apply chars_str_replace_empty.
Qed.

Lemma check_for_gnd_strips_commas_witness :
  let marcField :=
    mkField "100" [("a", "Bernoulli, Jacob"); ("0", "(DE-588)118509864,")] in
  getitem marcField "0" = Some "(DE-588)118509864,"
  ∧ chars (GND (__check_for_gnd marcField "0")) = chars "(DE-588)118509864".
Proof.
  simpl. split; [reflexivity|].
  exact (proj1 (check_for_gnd_strips_commas
                  (mkField "100" [("a", "Bernoulli, Jacob"); ("0", "(DE-588)118509864,")])
                  "0" "(DE-588)118509864," eq_refl)).
Defined.

(** C10: the author list is the persons of the tag-100 occurrences, in
    record order, followed by the persons of the tag-700 occurrences whose
    role is ["aut"], in record order. *)
Theorem get_author_order (records : MarcRecord) :
  ∃ from_100 from_700,
    get_author records = from_100 ++ from_700
    ∧ from_100 = (λ f, __check_for_gnd f "0") <$> get_fields records "100"
    ∧ from_700 = (λ f, __check_for_gnd f "0")
                   <$> filter (λ f, getitem f "4" = Some "aut")
                         (get_fields records "700").
Proof. eexists _, _. split; [apply get_author_unfold|done]. Qed.

(** C6: a tag-700 occurrence puts its person into the author list exactly
    when its subfield '4' is the string ["aut"], and into the recipient list
    exactly when it is ["rcp"]; otherwise the list is what it is without the
    occurrence.  An occurrence with role ["edt"] changes neither list. *)
Theorem role_filtering (before after : MarcRecord) (field : Field)
  (Htag : tag field = "700") :
  let person := __check_for_gnd field "0" in
  (if decide (getitem field "4" = Some "aut")
   then contributes person (get_author (before ++ after))
          (get_author (before ++ field :: after))
   else get_author (before ++ field :: after) = get_author (before ++ after))
  ∧ (if decide (getitem field "4" = Some "rcp")
     then contributes person (get_recipient (before ++ after))
            (get_recipient (before ++ field :: after))
     else get_recipient (before ++ field :: after)
          = get_recipient (before ++ after))
  ∧ (getitem field "4" = Some "edt" →
     get_author (before ++ field :: after) = get_author (before ++ after)
     ∧ get_recipient (before ++ field :: after)
       = get_recipient (before ++ after)).
Proof.
  assert (H100 : get_fields (before ++ field :: after) "100"
                 = get_fields (before ++ after) "100").
  { rewrite !get_fields_app, get_fields_cons.
    rewrite decide_False; [done | by rewrite Htag]. }
  assert (H700 : get_fields (before ++ field :: after) "700"
                 = get_fields before "700" ++ field :: get_fields after "700").
  { rewrite !get_fields_app, get_fields_cons. by rewrite decide_True. }
  assert (Hskip : ∀ code, getitem field "4" ≠ Some code →
            filter (λ f, getitem f "4" = Some code)
              (get_fields (before ++ field :: after) "700")
            = filter (λ f, getitem f "4" = Some code)
                (get_fields (before ++ after) "700")).
  { intros code Hne. rewrite H700, get_fields_app, !filter_app, filter_cons.
    by rewrite decide_False. }
  assert (Hkeep : ∀ code, getitem field "4" = Some code →
            filter (λ f, getitem f "4" = Some code)
              (get_fields (before ++ field :: after) "700")
            = filter (λ f, getitem f "4" = Some code) (get_fields before "700")
              ++ field
              :: filter (λ f, getitem f "4" = Some code) (get_fields after "700")).
  { intros code He. rewrite H700, !filter_app, filter_cons.
    by rewrite decide_True. }
  simpl. split; [|split].
  - destruct (decide (getitem field "4" = Some "aut")) as [He|Hne].
    + exists (((λ f, __check_for_gnd f "0") <$> get_fields (before ++ after) "100")
              ++ ((λ f, __check_for_gnd f "0")
                    <$> filter (λ f, getitem f "4" = Some "aut")
                          (get_fields before "700"))),
             ((λ f, __check_for_gnd f "0")
                <$> filter (λ f, getitem f "4" = Some "aut") (get_fields after "700")).
      rewrite !get_author_unfold, H100, (Hkeep _ He).
      rewrite (get_fields_app before after "700"), filter_app, !fmap_app, fmap_cons.
      by rewrite !app_assoc.
    + by rewrite !get_author_unfold, H100, (Hskip _ Hne).
  - destruct (decide (getitem field "4" = Some "rcp")) as [He|Hne].
    + exists ((λ f, __check_for_gnd f "0")
                <$> filter (λ f, getitem f "4" = Some "rcp") (get_fields before "700")),
             ((λ f, __check_for_gnd f "0")
                <$> filter (λ f, getitem f "4" = Some "rcp") (get_fields after "700")).
      rewrite !get_recipient_unfold, (Hkeep _ He).
      by rewrite get_fields_app, filter_app, !fmap_app, fmap_cons.
    + by rewrite !get_recipient_unfold, (Hskip _ Hne).
  - intros Hedt. split.
    + rewrite !get_author_unfold, H100, Hskip; [done | by rewrite Hedt].
    + rewrite !get_recipient_unfold, Hskip; [done | by rewrite Hedt].
Qed.

Lemma role_filtering_witness :
  let editor := mkField "700" [("a", "Bernoulli, Johann"); ("4", "edt")] in
  let before := [mkField "100" [("a", "Bernoulli, Jacob")]] in
  let after := [mkField "700" [("a", "Leibniz, Gottfried Wilhelm"); ("4", "rcp")]] in
  tag editor = "700"
  ∧ get_author (before ++ editor :: after) = get_author (before ++ after)
  ∧ get_recipient (before ++ editor :: after) = get_recipient (before ++ after).
Proof.
  simpl. split; [reflexivity|].
  exact (proj2 (proj2 (role_filtering
           [mkField "100" [("a", "Bernoulli, Jacob")]]
           [mkField "700" [("a", "Leibniz, Gottfried Wilhelm"); ("4", "rcp")]]
           (mkField "700" [("a", "Bernoulli, Johann"); ("4", "edt")])
           eq_refl)) eq_refl).
Defined.

End PersonFacts.

(** ** Scalar extractors *)

Section ScalarFacts.
Import Scalar.

Lemma last_present_snoc (code : string) (fs : list Field) (f : Field) :
  last_present code (fs ++ [f])
  = match getitem f code with
    | Some v => Some v
    | None => last_present code fs
    end.
Proof.
  unfold last_present. rewrite omap_app. simpl.
  destruct (getitem f code) as [v|]; simpl.
  - by rewrite last_snoc.
  - by rewrite app_nil_r.
Qed.

(** No occurrence carries [code] exactly when there is no last one that
    does. *)
Lemma last_present_None (code : string) (fs : list Field) :
  last_present code fs = None ↔ Forall (λ f, contains f code = false) fs.
Proof.
  induction fs as [|f fs IH] using rev_ind.
  - split; [constructor|done].
  - rewrite last_present_snoc, Forall_app, Forall_singleton, contains_false_getitem.
    destruct (getitem f code) as [v|]; [split; [done|by intros [_ ?]]|].
    rewrite IH. tauto.
Qed.

(** The loop of the seven extractors that test [code in field]: the
    assigned value is that of the last occurrence carrying [code]. *)
Lemma guarded_loop (code : string) (fs : list Field) (init : option string) :
  for_each fs (λ x f, if contains f code then getitem f code else x) init
  = match last_present code fs with
    | Some v => Some v
    | None => init
    end.
Proof.
  induction fs as [|f fs IH] using rev_ind; [done|].
  rewrite for_each_snoc, IH, last_present_snoc.
  destruct (contains f code) eqn:Hc.
  - apply contains_getitem in Hc as [v ->]. done.
  - apply contains_false_getitem in Hc as ->. done.
Qed.

(** The loop of [get_date], which assigns [field['c']] without a test:
    the value is whatever the last occurrence gives. *)
Lemma unguarded_loop (code : string) (fs : list Field) (init : option string) :
  for_each fs (λ _ f, getitem f code) init
  = match last fs with
    | Some f => getitem f code
    | None => init
    end.
Proof.
  induction fs as [|f fs _] using rev_ind; [done|].
  by rewrite for_each_snoc, last_snoc.
Qed.

Lemma run_guarded (e : extractor) (records : MarcRecord) :
  e ≠ Date →
  run e records = last_present (code_of e) (get_fields records (tag_of e)).
Proof.
  intros He.
  destruct e; try done; simpl;
    match goal with
    | |- ?g records = _ => unfold g
    end;
    rewrite guarded_loop; by destruct (last_present _ _).
Qed.

Lemma run_date (records : MarcRecord) :
  run Date records = last (get_fields records "046") ≫= (λ f, getitem f "c").
Proof.
  simpl. unfold get_date. rewrite unguarded_loop.
  by destruct (last _).
Qed.

(** When every occurrence carries [code], the last one carrying it is the
    last occurrence. *)
Lemma last_present_all (code : string) (fs : list Field) (f : Field) :
  contains f code = true →
  last_present code (fs ++ [f]) = getitem f code.
Proof.
  intros Hc. rewrite last_present_snoc.
  by apply contains_getitem in Hc as [v ->].
Qed.

(** C1: for each of the eight scalar extractors, if the tag occurs and
    every occurrence carries the subfield, the result is the subfield value
    of the last occurrence; tag 500 with 'a' = "X" and then 'a' = "Y" gives
    the footnote "Y". *)
Theorem scalar_last_wins (e : extractor) (records : MarcRecord)
  (earlier : list Field) (final : Field)
  (Hoccurrences : get_fields records (tag_of e) = earlier ++ [final])
  (Hpresent : Forall (λ f, contains f (code_of e) = true) (earlier ++ [final])) :
  run e records = getitem final (code_of e)
  ∧ is_Some (run e records)
  ∧ get_footnote [mkField "500" [("a", "X")]; mkField "500" [("a", "Y")]]
    = Some "Y".
Proof.
  rewrite Forall_app, Forall_singleton in Hpresent.
  destruct Hpresent as [_ Hfinal].
  assert (Hrun : run e records = getitem final (code_of e)).
  { destruct (decide (e = Date)) as [->|He].
    - simpl in Hoccurrences. rewrite run_date, Hoccurrences, last_snoc. done.
    - rewrite run_guarded, Hoccurrences by done. by apply last_present_all. }
  split; [done|]. split; [|reflexivity].
  rewrite Hrun. by apply contains_getitem.
Qed.

Lemma scalar_last_wins_witness :
  let records :=
    [mkField "046" [("c", "1695"); ("c", "1696")];
     mkField "245" [("a", "Brief")];
     mkField "046" [("a", "k"); ("c", "1700")]] in
  get_date records = Some "1700".
Proof.
  simpl.
  exact (proj1 (scalar_last_wins Date
           [mkField "046" [("c", "1695"); ("c", "1696")];
            mkField "245" [("a", "Brief")];
            mkField "046" [("a", "k"); ("c", "1700")]]
           [mkField "046" [("c", "1695"); ("c", "1696")]]
           (mkField "046" [("a", "k"); ("c", "1700")])
           eq_refl
           ltac:(repeat constructor))).
Defined.

(** C3, as the code has it: the seven extractors that test for the
    subfield return the value of the last occurrence carrying it, and
    [None] exactly when no occurrence carries it; [get_date] assigns
    without the test, so a later occurrence of tag 046 without 'c' puts the
    result back to [None] although an earlier occurrence carries 'c'. *)
Theorem scalar_absent_subfield :
  (∀ e records, e ≠ Date →
     run e records = last_present (code_of e) (get_fields records (tag_of e))
     ∧ (run e records = None
        ↔ Forall (λ f, contains f (code_of e) = false)
            (get_fields records (tag_of e))))
  ∧ (let records := [mkField "046" [("c", "1700")]; mkField "046" [("a", "k")]] in
     get_date records = None
     ∧ last_present "c" (get_fields records "046") = Some "1700").
Proof.
  split; [|by split].
  intros e records He. rewrite run_guarded by done.
  split; [done|]. apply last_present_None.
Qed.

End ScalarFacts.

(** ** Composite extractors *)

Section CompositeFacts.
Import Composite.

Lemma get_fields_singleton (f : Field) (t : string) :
  tag f = t → get_fields [f] t = [f].
Proof. intros Ht. rewrite get_fields_cons. by rewrite decide_True. Qed.

(** Each of the five loops is the fold of [step]. *)
Lemma run_fold (e : extractor) (records : MarcRecord) :
  run e records = for_each (get_fields records (tag_of e)) (step e) None.
Proof. by destruct e. Qed.

Lemma run_snoc (e : extractor) (records : MarcRecord) (f : Field) :
  tag f = tag_of e →
  run e (records ++ [f]) = step e (run e records) f.
Proof.
  intros Ht.
  by rewrite !run_fold, get_fields_app, get_fields_singleton, for_each_snoc.
Qed.

Lemma lookup_key_update_or_create (x : option dict) (k k' : string)
  (v : option string) :
  lookup_key (update_or_create x k v) k'
  = if decide (k = k') then Some v else lookup_key x k'.
Proof.
  destruct x as [d|]; simpl.
  - apply lookup_insert.
  - destruct (decide (k = k')) as [->|Hne].
    + apply lookup_singleton_eq.
    + by apply lookup_singleton_ne.
Qed.

Lemma key_code_None (table : list (string * string)) (k : string) :
  k ∉ table.*2 → key_code table k = None.
Proof.
  induction table as [|[c k'] table IH]; [done|].
  rewrite fmap_cons, not_elem_of_cons. intros [Hne Hnotin]. simpl.
  rewrite decide_False by done. by apply IH.
Qed.

(** What a pass over the non-leading subfields leaves under a key. *)
Lemma lookup_key_merge_others (f : Field) (table : list (string * string))
  (x : option dict) (k : string) :
  NoDup table.*2 →
  lookup_key (merge_others f table x) k
  = match key_code table k with
    | Some c => if contains f c then Some (getitem f c) else lookup_key x k
    | None => lookup_key x k
    end.
Proof.
  revert x. induction table as [|[c k'] table IH]; intros x Hnd; [done|].
  rewrite fmap_cons in Hnd. apply NoDup_cons in Hnd as [Hnotin Hnd].
  cbn [merge_others fold_left key_code fst snd].
  change (fold_left _ table ?y) with (merge_others f table y).
  rewrite IH by done.
  destruct (decide (k' = k)) as [->|Hne].
  - rewrite key_code_None by done.
    destruct (contains f c); [|done].
    rewrite lookup_key_update_or_create. by rewrite decide_True.
  - destruct (contains f c); [|done].
    rewrite lookup_key_update_or_create. by rewrite decide_False.
Qed.

Lemma keys_NoDup (e : extractor) : NoDup (leading e :: others e).*2.
Proof. destruct e; apply (bool_decide_unpack _); by vm_compute. Qed.

(** What one occurrence leaves under a key. *)
Lemma lookup_key_step (e : extractor) (x : option dict) (f : Field) (k : string) :
  lookup_key (step e x f) k
  = let kept := if contains f (leading e).1 then None else lookup_key x k in
    match code_for e k with
    | Some c => if contains f c then Some (getitem f c) else kept
    | None => kept
    end.
Proof.
  pose proof (keys_NoDup e) as Hnd.
  rewrite fmap_cons in Hnd. apply NoDup_cons in Hnd as [Hnotin Hnd].
  unfold step, code_for. rewrite lookup_key_merge_others by done.
  destruct (leading e) as [lc lk]. cbn [key_code fst snd] in *.
  destruct (decide (lk = k)) as [->|Hne].
  - rewrite key_code_None by done.
    destruct (contains f lc); [|done]. apply lookup_singleton_eq.
  - destruct (contains f lc); [|done].
    assert (lookup_key (Some {[lk := getitem f lc]}) k = None) as ->
      by by apply lookup_singleton_ne.
    done.
Qed.

(** C2 fails as stated: in each composite extractor the branch of the
    leading subfield assigns a new dict.  Here the first occurrence of tag
    300 sets key "format"; the second carries only 'a', and the key is
    gone from the result. *)
Lemma composite_merge_counterexample :
  let first := mkField "300" [("c", "cm")] in
  let second := mkField "300" [("a", "10 p.")] in
  lookup_key (get_physical_description [first]) "format" = Some (Some "cm")
  ∧ contains second "c" = false
  ∧ get_physical_description [first; second] = Some {["amount" := Some "10 p."]}
  ∧ lookup_key (get_physical_description [first; second]) "format" = None.
Proof. simpl. repeat split; by vm_compute. Qed.

(** C2, amended: scanning the occurrences in order, an occurrence that
    carries the leading subfield starts a new dict holding that subfield's
    key alone, and every other relevant subfield it carries sets or
    overwrites its own key; every other key is left as it was.  So an
    occurrence without the leading subfield removes no key, and a result
    is [None] when the tag does not occur.  Tag 300 with only 'a' = "10 p."
    and then only 'c' = "cm" gives {amount: "10 p.", format: "cm"}. *)
Theorem composite_merge (e : extractor) (records : MarcRecord) (field : Field)
  (Htag : tag field = tag_of e) :
  (∀ k,
     lookup_key (run e (records ++ [field])) k
     = let kept :=
         if contains field (leading e).1 then None
         else lookup_key (run e records) k in
       match code_for e k with
       | Some c => if contains field c then Some (getitem field c) else kept
       | None => kept
       end)
  ∧ (contains field (leading e).1 = false →
     ∀ k, is_Some (lookup_key (run e records) k) →
          is_Some (lookup_key (run e (records ++ [field])) k))
  ∧ (get_fields records (tag_of e) = [] → run e records = None)
  ∧ get_physical_description
      [mkField "300" [("a", "10 p.")]; mkField "300" [("c", "cm")]]
    = Some {["amount" := Some "10 p."; "format" := Some "cm"]}.
Proof.
  assert (Hstep : ∀ k,
     lookup_key (run e (records ++ [field])) k
     = let kept :=
         if contains field (leading e).1 then None
         else lookup_key (run e records) k in
       match code_for e k with
       | Some c => if contains field c then Some (getitem field c) else kept
       | None => kept
       end).
  { intros k. rewrite run_snoc by done. apply lookup_key_step. }
  split; [done|]. split; [|split].
  - intros Hlead k Hk. rewrite Hstep. simpl. rewrite Hlead.
    destruct (code_for e k) as [c|]; [|done].
    by destruct (contains field c).
  - intros Hnone. by rewrite run_fold, Hnone.
  - by vm_compute.
Qed.

Lemma composite_merge_witness :
  let records := [mkField "300" [("a", "10 p.")]] in
  let field := mkField "300" [("c", "cm")] in
  tag field = tag_of PhysicalDescription
  ∧ lookup_key (get_physical_description (records ++ [field])) "amount"
    = Some (Some "10 p.")
  ∧ lookup_key (get_physical_description (records ++ [field])) "format"
    = Some (Some "cm").
Proof.
  simpl. split; [reflexivity|]. split.
  - exact (proj1 (composite_merge PhysicalDescription
             [mkField "300" [("a", "10 p.")]] (mkField "300" [("c", "cm")])
             eq_refl) "amount").
  - exact (proj1 (composite_merge PhysicalDescription
             [mkField "300" [("a", "10 p.")]] (mkField "300" [("c", "cm")])
             eq_refl) "format").
Defined.

End CompositeFacts.

(** ** Fetching and decoding *)

Section FetchFacts.
Import Fetch.

Lemma is_file_Some (w : World) (p : string) (data : bytes) :
  files w !! p = Some data → is_file w p = true.
Proof. intros Hf. unfold is_file. rewrite Hf. by apply bool_decide_eq_true_2. Qed.

Lemma is_file_None (w : World) (p : string) :
  files w !! p = None → is_file w p = false.
Proof.
  intros Hf. unfold is_file. rewrite Hf.
  apply bool_decide_eq_false_2. by intros [? ?].
Qed.

Lemma get_marc21_hit (sys_id : string) (w : World) (data : bytes) :
  cached w sys_id data → get_marc21 sys_id w = (Ret data, w).
Proof.
  intros (Hroot & Hfile & Hio).
  unfold get_marc21, try_except, get_marc21_try, bind, os_path_exists, os_path_isfile.
  rewrite Hroot. cbn [negb ret]. fold (file_path_of sys_id).
  rewrite (is_file_Some _ _ _ Hfile).
  unfold read_file. by rewrite Hio, Hfile.
Qed.

Lemma cached_with_server (z : string → string + list bytes) (sys_id : string)
  (w : World) (data : bytes) :
  cached w sys_id data → cached (with_server z w) sys_id data.
Proof. by intros (Hroot & Hfile & Hio). Qed.


Lemma path_exists_dir (w : World) (p : string) :
  p ∈ dirs w → path_exists w p = true.
Proof.
  intros Hd. unfold path_exists. by rewrite bool_decide_eq_true_2.
Qed.

Lemma path_exists_write (w w' : World) (p q : string) (data : bytes) :
  dirs w' = dirs w → files w' = <[q := data]> (files w) →
  path_exists w p = true → path_exists w' p = true.
Proof.
  unfold path_exists. intros -> ->.
  rewrite !orb_true_iff, !bool_decide_eq_true.
  intros [Hd|Hf]; [by left|right].
  destruct (decide (q = p)) as [->|Hne].
  - rewrite lookup_insert_eq. eauto.
  - by rewrite lookup_insert_ne.
Qed.

Ltac run_fetch :=
  unfold get_marc21, try_except, get_marc21_try, bind, os_path_exists,
    os_path_isfile, os_makedirs, read_file, zoom_search, first_record,
    write_file, stderr_write, exit, ret, raise in *.

(** After a fetch that returned, the cache holds what it returned. *)
Lemma get_marc21_success_cached (sys_id : string) (w0 w1 : World) (data : bytes) :
  get_marc21 sys_id w0 = (Ret data, w1) → cached w1 sys_id data.
Proof.
  intros H. run_fetch. fold (file_path_of sys_id) in H.
  repeat case_match; simplify_eq; simpl in *; unfold cached; simpl.
  - split; [apply path_exists_dir; set_solver|done].
  - split; [|done]. by destruct (path_exists w1 cache_path).
  - split; [apply path_exists_dir; set_solver|by rewrite lookup_insert_eq].
  - split; [|by rewrite lookup_insert_eq].
    apply (path_exists_write w2 _ _ (file_path_of sys_id) data); [done..|].
    by destruct (path_exists w2 cache_path).
Qed.

(** A fetch that misses the cache and meets no failure returns the first
    record found, stores it and logs the one search it sent. *)
Lemma get_marc21_miss (sys_id : string) (w : World) (data : bytes)
  (rest : list bytes) :
  files w !! file_path_of sys_id = None →
  cache_ready w →
  io_error w (file_path_of sys_id) = None →
  z3950 w ("@attr 1=1032 " +:+ sys_id) = inr (data :: rest) →
  get_marc21 sys_id w
  = (Ret data,
     mkWorld (if path_exists w cache_path then dirs w else {[cache_path]} ∪ dirs w)
       (<[file_path_of sys_id := data]> (files w)) (io_error w) (z3950 w)
       (searches w ++ ["@attr 1=1032 " +:+ sys_id]) (stderr w)).
Proof.
  intros Hmiss Hready Hio Hz. run_fetch. fold (file_path_of sys_id).
  destruct (path_exists w cache_path) eqn:Hroot; cbn [negb].
  - rewrite (is_file_None _ _ Hmiss), Hz. simpl. by rewrite Hio.
  - destruct Hready as [?|Hmk]; [congruence|]. rewrite Hmk.
    rewrite is_file_None by done. simpl. rewrite Hz. simpl. by rewrite Hio.
Qed.

(** A fetch that misses the cache and returns has got its bytes from the
    server and has stored them. *)
Lemma get_marc21_miss_inv (sys_id : string) (w w' : World) (data : bytes) :
  files w !! file_path_of sys_id = None →
  get_marc21 sys_id w = (Ret data, w') →
  (∃ rest, z3950 w ("@attr 1=1032 " +:+ sys_id) = inr (data :: rest))
  ∧ files w' = <[file_path_of sys_id := data]> (files w)
  ∧ searches w' = searches w ++ ["@attr 1=1032 " +:+ sys_id]
  ∧ stderr w' = stderr w.
Proof.
  intros Hmiss H. run_fetch. fold (file_path_of sys_id) in H.
  repeat case_match; simplify_eq; simpl in *; try congruence; eauto.
Qed.


(** Every failure of a fetch ends the process with status 1, after one
    line on stderr that carries the error and the identifier; no cache
    file is written. *)
Lemma get_marc21_failure (sys_id : string) (w : World) (e : string) :
  fetch_failure sys_id w e →
  ∃ w', get_marc21 sys_id w = (Exit 1, w')
        ∧ stderr w' = stderr w ++ ["Getting Marc21 failed: " +:+ e
                                   +:+ " for sysid: " +:+ sys_id +:+ newline]
        ∧ files w' = files w.
Proof.
  intros Hfail. run_fetch. fold (file_path_of sys_id).
  destruct Hfail as [e Hroot Hmk | e Hready [data Hfile] Hio | e Hready Hfile Hz
                    | Hready Hfile Hz | e r rest Hready Hfile Hz Hio].
  - rewrite Hroot. cbn [negb]. rewrite Hmk. eauto.
  - destruct (path_exists w cache_path) eqn:Hroot; cbn [negb].
    + rewrite (is_file_Some _ _ _ Hfile), Hio. eauto.
    + destruct Hready as [?|Hmk]; [congruence|]. rewrite Hmk.
      rewrite (is_file_Some _ _ data) by done. simpl. rewrite Hio. eauto.
  - destruct (path_exists w cache_path) eqn:Hroot; cbn [negb].
    + rewrite (is_file_None _ _ Hfile), Hz. eauto.
    + destruct Hready as [?|Hmk]; [congruence|]. rewrite Hmk.
      rewrite is_file_None by done. simpl. rewrite Hz. eauto.
  - destruct (path_exists w cache_path) eqn:Hroot; cbn [negb].
    + rewrite (is_file_None _ _ Hfile), Hz. eauto.
    + destruct Hready as [?|Hmk]; [congruence|]. rewrite Hmk.
      rewrite is_file_None by done. simpl. rewrite Hz. eauto.
  - destruct (path_exists w cache_path) eqn:Hroot; cbn [negb].
    + rewrite (is_file_None _ _ Hfile), Hz. simpl. rewrite Hio. eauto.
    + destruct Hready as [?|Hmk]; [congruence|]. rewrite Hmk.
      rewrite is_file_None by done. simpl. rewrite Hz. simpl. rewrite Hio. eauto.
Qed.

Lemma is_file_true_inv (w : World) (p : string) :
  is_file w p = true → is_Some (files w !! p).
Proof. unfold is_file. by rewrite bool_decide_eq_true. Qed.

Lemma is_file_false_inv (w : World) (p : string) :
  is_file w p = false → files w !! p = None.
Proof. unfold is_file. rewrite bool_decide_eq_false. apply eq_None_not_Some. Qed.

Ltac read_tests :=
  repeat match goal with
    | H : is_file _ _ = true |- _ => apply is_file_true_inv in H; simpl in H
    | H : is_file _ _ = false |- _ => apply is_file_false_inv in H; simpl in H
    | H : negb _ = true |- _ => apply negb_true_iff in H
    | H : negb _ = false |- _ => apply negb_false_iff in H
    | H : is_Some ?x, H' : ?x = None |- _ => destruct H as [? ?]; congruence
    end.

Ltac find_failure :=
  first
    [ by eapply makedirs_fails
    | by eapply read_fails; unfold cache_ready; eauto
    | by eapply search_fails; unfold cache_ready; eauto
    | by eapply search_empty; unfold cache_ready; eauto
    | by eapply write_fails; unfold cache_ready; eauto ].

(** A fetch that ends the process has met one of the failures, ends with
    status 1 and has reported the failure with the identifier. *)
Lemma get_marc21_exit_inv (sys_id : string) (w w' : World) (status : Z) :
  get_marc21 sys_id w = (Exit status, w') →
  status = 1%Z
  ∧ ∃ e, fetch_failure sys_id w e
         ∧ stderr w' = stderr w ++ ["Getting Marc21 failed: " +:+ e
                                    +:+ " for sysid: " +:+ sys_id +:+ newline].
Proof.
  intros H. run_fetch. fold (file_path_of sys_id) in H.
  repeat case_match; simplify_eq; simpl in *; (split; [done|]).
  all: read_tests; eexists; (split; [|done]); find_failure.
Qed.

Lemma get_marc21_no_raise (sys_id : string) (w w' : World) (e : string) :
  get_marc21 sys_id w = (Raise e, w') → False.
Proof.
  intros H. run_fetch. repeat case_match; simplify_eq.
Qed.

(** C4: when the cache file of an identifier exists, a fetch sends no
    search; when it can be opened, the fetch returns its contents and
    leaves the world as it was, whatever server is behind the network.  So
    after a fetch that returned, a second fetch returns the same bytes even
    when the server cannot be reached. *)
Theorem fetch_cache_hit (sys_id : string) :
  (∀ w data,
     files w !! file_path_of sys_id = Some data →
     searches (get_marc21 sys_id w).2 = searches w)
  ∧ (∀ w data,
       cached w sys_id data →
       get_marc21 sys_id w = (Ret data, w)
       ∧ ∀ z, get_marc21 sys_id (with_server z w) = (Ret data, with_server z w))
  ∧ (∀ w0 w1 data,
       get_marc21 sys_id w0 = (Ret data, w1) →
       get_marc21 sys_id (with_server unreachable w1)
       = (Ret data, with_server unreachable w1)).
Proof.
  split; [|split].
  - intros w data Hfile.
    destruct (get_marc21 sys_id w) as [r w'] eqn:H.
    run_fetch. fold (file_path_of sys_id) in H.
    repeat case_match; simplify_eq; read_tests; simpl in *; congruence.
  - intros w data Hc. split; [by apply get_marc21_hit|].
    intros z. by apply get_marc21_hit, cached_with_server.
  - intros w0 w1 data H.
    by apply get_marc21_hit, cached_with_server, (get_marc21_success_cached _ w0).
Qed.

Lemma fetch_cache_hit_witness :
  let w0 := mkWorld ∅ ∅ (λ _, None) (λ _, inr [[x4d; x41; x52; x43]]) [] [] in
  let w1 := (get_marc21 "000123456" w0).2 in
  get_marc21 "000123456" w0 = (Ret [x4d; x41; x52; x43], w1)
  ∧ get_marc21 "000123456" (with_server unreachable w1)
    = (Ret [x4d; x41; x52; x43], with_server unreachable w1).
Proof.
  simpl. split; [by vm_compute|].
  apply (proj2 (proj2 (fetch_cache_hit "000123456"))
           (mkWorld ∅ ∅ (λ _, None) (λ _, inr [[x4d; x41; x52; x43]]) [] [])).
  by vm_compute.
Defined.

(** C5: when the cache file of an identifier does not exist, a fetch that
    returns has got its bytes as the first record the server found for the
    identifier, has written exactly them to the cache file and returns
    them, so the file then holds them; and the fetch does return whenever
    the cache directory is there or can be made, the file can be written
    and the server finds a record. *)
Theorem fetch_cache_miss (sys_id : string) (w : World)
  (Hmiss : files w !! file_path_of sys_id = None) :
  (∀ data w',
     get_marc21 sys_id w = (Ret data, w') →
     (∃ rest, z3950 w ("@attr 1=1032 " +:+ sys_id) = inr (data :: rest))
     ∧ files w' = <[file_path_of sys_id := data]> (files w)
     ∧ files w' !! file_path_of sys_id = Some data
     ∧ searches w' = searches w ++ ["@attr 1=1032 " +:+ sys_id])
  ∧ (∀ data rest,
       cache_ready w →
       io_error w (file_path_of sys_id) = None →
       z3950 w ("@attr 1=1032 " +:+ sys_id) = inr (data :: rest) →
       ∃ w', get_marc21 sys_id w = (Ret data, w')
             ∧ files w' !! file_path_of sys_id = Some data).
Proof.
  split.
  - intros data w' H.
    destruct (get_marc21_miss_inv _ _ _ _ Hmiss H) as (Hz & Hfiles & Hs & _).
    repeat split; try done. rewrite Hfiles. apply lookup_insert_eq.
  - intros data rest Hready Hio Hz. eexists. split.
    + by eapply get_marc21_miss.
    + apply lookup_insert_eq.
Qed.

Lemma fetch_cache_miss_witness :
  let w := mkWorld ∅ ∅ (λ _, None) (λ _, inr [[x4d; x41; x52; x43]]) [] [] in
  files w !! file_path_of "000123456" = None
  ∧ ∃ w', get_marc21 "000123456" w = (Ret [x4d; x41; x52; x43], w')
          ∧ files w' !! "marc_cache/000123456.marc" = Some [x4d; x41; x52; x43].
Proof.
  simpl. split; [reflexivity|].
  exact (proj2 (fetch_cache_miss "000123456"
                  (mkWorld ∅ ∅ (λ _, None) (λ _, inr [[x4d; x41; x52; x43]]) [] [])
                  eq_refl)
           [x4d; x41; x52; x43] [] (or_intror eq_refl) eq_refl eq_refl).
Defined.

(** C9: every failure of a fetch (making the cache directory, reading or
    writing the cache file, the search, an empty result) ends the process
    with status 1 after writing the error and the identifier to stderr, and
    a fetch ends the process in no other way and lets no exception out;
    every failure of decoding (a malformed first record, no record) ends
    the process with status 2 after writing to stderr.  The two statuses
    differ and neither is 0; a call that ends the process returns
    nothing. *)
Theorem fatal_failures (MARCReader : bytes → list (string + MarcRecord))
  (sys_id : string) (marc21 : bytes) (w : World) :
  (∀ e, fetch_failure sys_id w e →
     ∃ w', get_marc21 sys_id w = (Exit 1, w')
           ∧ stderr w' = stderr w ++ ["Getting Marc21 failed: " +:+ e
                                      +:+ " for sysid: " +:+ sys_id +:+ newline])
  ∧ (∀ status w', get_marc21 sys_id w = (Exit status, w') →
       status = 1%Z
       ∧ ∃ e, fetch_failure sys_id w e
              ∧ stderr w' = stderr w ++ ["Getting Marc21 failed: " +:+ e
                                         +:+ " for sysid: " +:+ sys_id +:+ newline])
  ∧ (∀ e w', get_marc21 sys_id w ≠ (Raise e, w'))
  ∧ (∀ e, decode_failure (MARCReader marc21) e →
       get_records MARCReader marc21 w
       = (Exit 2, mkWorld (dirs w) (files w) (io_error w) (z3950 w) (searches w)
                    ((stderr w ++ ["Error reading Marc21 data."]) ++ [e])))
  ∧ (∀ r rest, MARCReader marc21 = inr r :: rest →
       get_records MARCReader marc21 w = (Ret r, w))
  ∧ (1 ≠ 2 ∧ 1 ≠ 0 ∧ 2 ≠ 0)%Z.
Proof.
  split; [|split; [|split; [|split; [|split]]]].
  - intros e Hfail.
    destruct (get_marc21_failure _ _ _ Hfail) as (w' & H & Herr & _). eauto.
  - intros status w'. apply get_marc21_exit_inv.
  - intros e w' H. by eapply get_marc21_no_raise.
  - intros e Hfail. unfold get_records, try_except.
    by destruct Hfail.
  - intros r rest Hr. unfold get_records, try_except. by rewrite Hr.
  - done.
Qed.

Lemma fatal_failures_witness :
  let w := mkWorld ∅ ∅ (λ _, None) unreachable [] [] in
  fetch_failure "000123456" w "Connection refused"
  ∧ ∃ w', get_marc21 "000123456" w = (Exit 1, w')
          ∧ stderr w' = ["Getting Marc21 failed: Connection refused for sysid: 000123456"
                         +:+ newline].
Proof.
  simpl.
  assert (Hfail : fetch_failure "000123456"
                    (mkWorld ∅ ∅ (λ _, None) unreachable [] []) "Connection refused").
  { apply search_fails; [by right|done..]. }
  split; [exact Hfail|].
  exact (proj1 (fatal_failures (λ _, []) "000123456" []
                  (mkWorld ∅ ∅ (λ _, None) unreachable [] []))
           "Connection refused" Hfail).
Defined.

(** The scenario of the specification: identifier 000123456 is not in the
    cache, the server returns a record whose decoding has one tag-100 field;
    the cache file is made and the author list has the one person, the
    comma of the authority identifier left out. *)
Example end_to_end :
  let marc21 := [x4d; x41; x52; x43] in
  let record :=
    [mkField "100" [("a", "Bernoulli, Jacob"); ("d", "1654-1705");
                    ("0", "(DE-588)118509864,")]] in
  let w := mkWorld ∅ ∅ (λ _, None) (λ _, inr [marc21]) [] [] in
  let w' := (get_marc21 "000123456" w).2 in
  get_marc21 "000123456" w = (Ret marc21, w')
  ∧ files w' !! "marc_cache/000123456.marc" = Some marc21
  ∧ get_records (λ _, [inr record]) marc21 w' = (Ret record, w')
  ∧ Person.get_author record
    = [Person.mkPerson "(DE-588)118509864" (Some "Bernoulli, Jacob") "1654-1705" ""].
Proof. repeat split; by vm_compute. Qed.

End FetchFacts.

(** * Further properties of the extractors and of the cache *)

(** ** Fields of other tags *)

Lemma get_fields_insert_other (before after : MarcRecord) (f : Field) (t : string) :
  tag f ≠ t →
  get_fields (before ++ f :: after) t = get_fields (before ++ after) t.
Proof.
  intros Hne. rewrite !get_fields_app, get_fields_cons. by rewrite decide_False.
Qed.

(** ** Persons, continued *)

Section PersonLists.
Import Person.

Lemma get_mentioned_persons_unfold (records : MarcRecord) :
  get_mentioned_persons records
  = (λ f, __check_for_gnd f "0") <$> get_fields records "600".
Proof.
  unfold get_mentioned_persons.
  by rewrite (for_each_append (λ f, __check_for_gnd f "0")).
Qed.

Lemma str_replace_absent (old : ascii) (new s : string) :
  old ∉ chars s → str_replace old new s = s.
Proof.
  induction s as [|c s IH]; [done|].
  cbn [chars str_replace]. rewrite not_elem_of_cons. intros [Hne Hnotin].
  destruct (Ascii.eqb_spec c old) as [->|_]; [done|]. by rewrite IH.
Qed.

Lemma chars_str_replace_free (old : ascii) (s : string) :
  old ∉ chars (str_replace old "" s).
Proof.
  rewrite chars_str_replace_empty, list_elem_of_filter. by intros [? _].
Qed.

Lemma gnd_comma_free (f : Field) (idx : string) :
  ((","%char) ∉ chars (GND (__check_for_gnd f idx)))
  ∧ str_replace "," "" (GND (__check_for_gnd f idx)) = GND (__check_for_gnd f idx).
Proof.
  assert (Hfree : (","%char) ∉ chars (GND (__check_for_gnd f idx))).
  { unfold __check_for_gnd; simpl. destruct (getitem f idx) as [g|].
    - apply chars_str_replace_free.
    - apply (bool_decide_unpack _). by vm_compute. }
  split; [done|]. by apply str_replace_absent.
Qed.

(** X1: the mentioned persons are the persons of the tag-600 occurrences,
    one for each occurrence whatever its role or name, in record order; the
    list of a concatenated record is the concatenation of the lists. *)
Theorem get_mentioned_persons_all (records records' : MarcRecord) :
  get_mentioned_persons records
  = (λ f, __check_for_gnd f "0") <$> get_fields records "600"
  ∧ length (get_mentioned_persons records) = length (get_fields records "600")
  ∧ get_mentioned_persons (records ++ records')
    = get_mentioned_persons records ++ get_mentioned_persons records'.
Proof.
  rewrite !get_mentioned_persons_unfold. split; [done|]. split.
  - apply length_fmap.
  - by rewrite get_fields_app, fmap_app.
Qed.

(** X2: the recipients are the persons of the tag-700 occurrences whose
    first subfield '4' is "rcp", in record order; the list of a
    concatenated record is the concatenation of the lists. *)
Theorem get_recipient_order (records records' : MarcRecord) :
  get_recipient records
  = (λ f, __check_for_gnd f "0")
      <$> filter (λ f, getitem f "4" = Some "rcp") (get_fields records "700")
  ∧ get_recipient (records ++ records')
    = get_recipient records ++ get_recipient records'.
Proof.
  rewrite !get_recipient_unfold. split; [done|].
  by rewrite get_fields_app, filter_app, fmap_app.
Qed.

(** X3: the author list of a concatenated record holds the authors of the
    two parts, but not always in that order: the tag-100 persons of the
    second part come before the tag-700 persons of the first.  The order
    is that of the parts when the second part has no tag-100 field or the
    first has no tag-700 author. *)
Theorem get_author_app (records records' : MarcRecord) :
  get_author (records ++ records') ≡ₚ get_author records ++ get_author records'
  ∧ (get_fields records' "100" = []
     ∨ filter (λ f, getitem f "4" = Some "aut") (get_fields records "700") = [] →
     get_author (records ++ records') = get_author records ++ get_author records')
  ∧ get_author ([mkField "700" [("a", "B"); ("4", "aut")]] ++ [mkField "100" [("a", "A")]])
    = get_author [mkField "100" [("a", "A")]]
      ++ get_author [mkField "700" [("a", "B"); ("4", "aut")]].
Proof.
  rewrite !get_author_unfold, !get_fields_app, filter_app, !fmap_app.
  split; [|split].
  - rewrite <- !app_assoc. apply Permutation_app_head.
    rewrite !app_assoc. apply Permutation_app_tail, Permutation_app_comm.
  - intros [-> | ->]; simpl; by rewrite ?app_nil_r, <- ?app_assoc.
  - reflexivity.
Qed.

(** X4: every listed recipient has role "rcp", and every listed author
    after the tag-100 persons has role "aut". *)
Theorem listed_roles (records : MarcRecord) :
  Forall (λ p, role p = "rcp") (get_recipient records)
  ∧ Forall (λ p, role p = "aut")
      (drop (length (get_fields records "100")) (get_author records)).
Proof.
  assert (Hrole : ∀ code fs,
            Forall (λ p, role p = code)
              ((λ f, __check_for_gnd f "0")
                 <$> filter (λ f, getitem f "4" = Some code) fs)).
  { intros code fs. rewrite Forall_fmap, Forall_forall. intros f Hf.
    apply list_elem_of_filter in Hf as [Hf _].
    change (role (__check_for_gnd f "0") = code).
    by rewrite role_check_for_gnd, Hf. }
  split.
  - rewrite get_recipient_unfold. apply Hrole.
  - rewrite get_author_unfold, drop_app_length' by by rewrite length_fmap.
    apply Hrole.
Qed.

(** X5: no identifier of a listed person holds a comma, and taking the
    commas out of it again changes nothing. *)
Theorem listed_gnd_comma_free (records : MarcRecord) :
  Forall (λ p, ((","%char) ∉ chars (GND p)) ∧ str_replace "," "" (GND p) = GND p)
    (get_author records ++ get_recipient records ++ get_mentioned_persons records).
Proof.
  rewrite get_author_unfold, get_recipient_unfold, get_mentioned_persons_unfold.
  rewrite !Forall_app, !Forall_fmap.
  repeat split; apply Forall_forall; intros f _; apply gnd_comma_free.
Qed.

(** X6: the identifier is the empty string exactly when the authority
    subfield is present and holds nothing but commas (the empty value
    included); so a present subfield can give an identifier that is
    neither an authority number nor "no_GND". *)
Theorem gnd_empty_iff (marcField : Field) (GNDIndex : string) :
  GND (__check_for_gnd marcField GNDIndex) = ""
  ↔ ∃ g, getitem marcField GNDIndex = Some g
         ∧ Forall (λ c, c = ","%char) (chars g).
Proof.
  assert (Hcommas : ∀ g, str_replace "," "" g = ""
                         ↔ Forall (λ c, c = ","%char) (chars g)).
  { induction g as [|c g IH]; [by split; [constructor|]|].
    cbn [str_replace chars]. rewrite Forall_cons.
    destruct (Ascii.eqb_spec c ",") as [->|Hne]; simpl.
    - rewrite IH. tauto.
    - split; [done|]. by intros [? _]. }
  unfold __check_for_gnd; simpl.
  destruct (getitem marcField GNDIndex) as [g|].
  - rewrite Hcommas. split; [eauto|]. by intros (g' & [= <-] & ?).
  - split; [done|]. by intros (g' & ? & _).
Qed.

(** X7: a field of another tag changes no person list: the authors depend
    on tags 100 and 700 only, the recipients on tag 700, the mentioned
    persons on tag 600; so a tag-100 person with role "rcp" is no
    recipient. *)
Theorem persons_ignore_other_tags (before after : MarcRecord) (field : Field) :
  (tag field ≠ "100" → tag field ≠ "700" →
   get_author (before ++ field :: after) = get_author (before ++ after))
  ∧ (tag field ≠ "700" →
     get_recipient (before ++ field :: after) = get_recipient (before ++ after))
  ∧ (tag field ≠ "600" →
     get_mentioned_persons (before ++ field :: after)
     = get_mentioned_persons (before ++ after)).
Proof.
  split; [|split].
  - intros H100 H700. by rewrite !get_author_unfold, !get_fields_insert_other.
  - intros H700. by rewrite !get_recipient_unfold, get_fields_insert_other.
  - intros H600. by rewrite !get_mentioned_persons_unfold, get_fields_insert_other.
Qed.

Lemma persons_ignore_other_tags_witness :
  let field := mkField "100" [("a", "Bernoulli, Jacob"); ("4", "rcp")] in
  let after := [mkField "700" [("a", "Leibniz, Gottfried Wilhelm"); ("4", "rcp")]] in
  get_recipient ([] ++ field :: after) = get_recipient ([] ++ after).
Proof.
  simpl.
  apply (proj1 (proj2 (persons_ignore_other_tags []
           [mkField "700" [("a", "Leibniz, Gottfried Wilhelm"); ("4", "rcp")]]
           (mkField "100" [("a", "Bernoulli, Jacob"); ("4", "rcp")])))).
  by vm_compute.
Defined.

End PersonLists.

(** ** Scalar extractors, continued *)

Section ScalarMore.
Import Scalar.

(** A scalar extractor reads the occurrences of its tag and nothing else. *)
Lemma run_occurrences (e : extractor) (records records' : MarcRecord) :
  get_fields records (tag_of e) = get_fields records' (tag_of e) →
  run e records = run e records'.
Proof.
  destruct (decide (e = Date)) as [->|He]; intros Heq.
  - rewrite !run_date. simpl in Heq. by rewrite Heq.
  - rewrite !run_guarded by done. by rewrite Heq.
Qed.

(** [field[code]] is the value of the first subfield with that code. *)
Lemma getitem_first (t code v : string) (pre post : list (string * string)) :
  code ∉ pre.*1 →
  getitem (mkField t (pre ++ (code, v) :: post)) code = Some v.
Proof.
  intros Hpre. unfold getitem, get_subfields. simpl.
  rewrite filter_app, filter_cons, decide_True by done.
  assert (filter (λ sf : string * string, sf.1 = code) pre = []) as ->.
  { induction pre as [|[c x] pre IH]; [done|].
    rewrite fmap_cons, not_elem_of_cons in Hpre. destruct Hpre as [Hne Hpre].
    simpl in Hne. rewrite filter_cons, decide_False by (simpl; congruence).
    by apply IH. }
  done.
Qed.

(** X8: a field of another tag, put in anywhere, changes the result of no
    scalar extractor. *)
Theorem scalar_ignores_other_tags (e : extractor) (before after : MarcRecord)
  (field : Field) (Hother : tag field ≠ tag_of e) :
  run e (before ++ field :: after) = run e (before ++ after).
Proof. by apply run_occurrences, get_fields_insert_other. Qed.

Lemma scalar_ignores_other_tags_witness :
  get_footnote
    ([mkField "500" [("a", "X")]] ++ mkField "520" [("a", "Z")]
       :: [mkField "500" [("a", "Y")]])
  = get_footnote ([mkField "500" [("a", "X")]] ++ [mkField "500" [("a", "Y")]]).
Proof.
  apply (scalar_ignores_other_tags Footnote [mkField "500" [("a", "X")]]
           [mkField "500" [("a", "Y")]] (mkField "520" [("a", "Z")])).
  by vm_compute.
Defined.

(** X9: [get_date] returns what [field['c']] gives on the last tag-046
    occurrence, whatever came before: its 'c' when it has one, [None]
    when it has none or when the tag does not occur. *)
Theorem get_date_last_occurrence (records : MarcRecord) :
  get_date records = last (get_fields records "046") ≫= (λ f, getitem f "c")
  ∧ (∀ final, tag final = "046" →
       get_date (records ++ [final]) = getitem final "c")
  ∧ (get_date records = None
     ↔ get_fields records "046" = []
       ∨ ∃ final, last (get_fields records "046") = Some final
                  ∧ contains final "c" = false).
Proof.
  pose proof (run_date records) as Hrun. simpl in Hrun.
  split; [done|]. split.
  - intros final Htag. pose proof (run_date (records ++ [final])) as H.
    simpl in H. rewrite H, get_fields_app, get_fields_singleton by done.
    by rewrite last_snoc.
  - rewrite Hrun.
    destruct (last (get_fields records "046")) as [f|] eqn:Hlast; simpl.
    + rewrite <- contains_false_getitem. split.
      * intros Hc. right. eauto.
      * intros [Hnil | (final & [= <-] & Hc)]; [|done].
        by rewrite Hnil in Hlast.
    + split; [|done]. intros _. left. by apply last_None.
Qed.

(** X10: a scalar extractor returns only what the record holds: a value
    it returns is [field[code]] of some occurrence of its tag. *)
Theorem scalar_value_from_record (e : extractor) (records : MarcRecord)
  (v : string) (Hvalue : run e records = Some v) :
  ∃ field, field ∈ records ∧ tag field = tag_of e
           ∧ getitem field (code_of e) = Some v.
Proof.
  assert (Hocc : ∃ field, field ∈ get_fields records (tag_of e)
                          ∧ getitem field (code_of e) = Some v).
  { destruct (decide (e = Date)) as [->|He].
    - rewrite run_date in Hvalue. simpl.
      destruct (last (get_fields records "046")) as [f|] eqn:Hlast; [|done].
      exists f. split; [by apply last_Some_elem_of|done].
    - rewrite run_guarded in Hvalue by done.
      apply last_Some_elem_of, list_elem_of_omap in Hvalue. done. }
  destruct Hocc as (field & Hin & Hget).
  apply list_elem_of_filter in Hin as [Htag Hin]. eauto.
Qed.

Lemma scalar_value_from_record_witness :
  let records := [mkField "546" [("a", "lat")]; mkField "546" [("b", "x")]] in
  get_language records = Some "lat"
  ∧ ∃ field, field ∈ records ∧ tag field = "546" ∧ getitem field "a" = Some "lat".
Proof.
  simpl. split; [reflexivity|].
  exact (scalar_value_from_record Language
           [mkField "546" [("a", "lat")]; mkField "546" [("b", "x")]] "lat" eq_refl).
Defined.

(** X11: inside one occurrence the first subfield with the code counts,
    across occurrences the last occurrence does: when the last occurrence
    of the tag holds the code, the result is the value of its first
    subfield with that code, for each of the eight extractors. *)
Theorem scalar_first_subfield_of_last (e : extractor) (records : MarcRecord)
  (pre post : list (string * string)) (v : string)
  (Hfirst : code_of e ∉ pre.*1) :
  run e (records ++ [mkField (tag_of e) (pre ++ (code_of e, v) :: post)]) = Some v.
Proof.
  pose proof (getitem_first (tag_of e) _ v pre post Hfirst) as Hget.
  destruct (decide (e = Date)) as [->|He].
  - rewrite run_date. simpl in *.
    rewrite get_fields_app, get_fields_singleton by done.
    by rewrite last_snoc.
  - rewrite run_guarded by done.
    rewrite get_fields_app, get_fields_singleton by done.
    by rewrite last_present_snoc, Hget.
Qed.

Lemma scalar_first_subfield_of_last_witness :
  get_emanuscript_link
    ([mkField "856" [("u", "http://a")]]
       ++ [mkField "856" ([("z", "n")] ++ ("u", "http://b") :: [("u", "http://c")])])
  = Some "http://b".
Proof.
  apply (scalar_first_subfield_of_last EmanuscriptLink
           [mkField "856" [("u", "http://a")]] [("z", "n")] [("u", "http://c")]
           "http://b").
  apply (bool_decide_unpack _). by vm_compute.
Defined.

End ScalarMore.

(** ** Composite extractors, continued *)

Section CompositeMore.
Import Composite.

Lemma update_or_create_Some (x : option dict) (k : string) (v : option string) :
  is_Some (update_or_create x k v).
Proof. destruct x; simpl; eauto. Qed.

(** A pass over the non-leading subfields gives [None] only when it
    starts from [None] and finds none of them. *)
Lemma merge_others_None (f : Field) (table : list (string * string))
  (x : option dict) :
  merge_others f table x = None
  ↔ x = None ∧ Forall (λ ck, contains f ck.1 = false) table.
Proof.
  revert x. induction table as [|[c k] table IH]; intros x.
  - split; [by split; [|constructor]|by intros [? _]].
  - cbn [merge_others fold_left fst snd].
    change (fold_left _ table ?y) with (merge_others f table y).
    rewrite IH, Forall_cons. simpl. destruct (contains f c).
    + split; [intros [Hn _]|by intros [_ [? _]]].
      by destruct (update_or_create_Some x k (getitem f c)) as [? ?]; congruence.
    + tauto.
Qed.

Lemma step_None (e : extractor) (x : option dict) (f : Field) :
  step e x f = None
  ↔ x = None ∧ Forall (λ ck, contains f ck.1 = false) (leading e :: others e).
Proof.
  unfold step. rewrite merge_others_None, Forall_cons.
  destruct (contains f (leading e).1); [|tauto].
  split; [by intros [? _]|by intros [_ [? _]]].
Qed.

(** An occurrence with the leading subfield makes the loop forget what it
    had. *)
Lemma step_leading (e : extractor) (x : option dict) (f : Field) :
  contains f (leading e).1 = true → step e x f = step e None f.
Proof. intros Hlead. unfold step. by rewrite Hlead. Qed.

(** X12: a field of another tag, put in anywhere, changes the result of no
    composite extractor. *)
Theorem composite_ignores_other_tags (e : extractor) (before after : MarcRecord)
  (field : Field) (Hother : tag field ≠ tag_of e) :
  run e (before ++ field :: after) = run e (before ++ after).
Proof. by rewrite !run_fold, get_fields_insert_other. Qed.

Lemma composite_ignores_other_tags_witness :
  get_description
    ([mkField "245" [("a", "Brief")]] ++ mkField "300" [("a", "2 p.")]
       :: [mkField "245" [("c", "Bernoulli")]])
  = get_description
      ([mkField "245" [("a", "Brief")]] ++ [mkField "245" [("c", "Bernoulli")]]).
Proof.
  apply (composite_ignores_other_tags Description [mkField "245" [("a", "Brief")]]
           [mkField "245" [("c", "Bernoulli")]] (mkField "300" [("a", "2 p.")])).
  by vm_compute.
Defined.

(** X13: a composite extractor returns [None] exactly when no occurrence
    of its tag holds any of its subfields; otherwise it returns a dict. *)
Theorem composite_None_iff (e : extractor) (records : MarcRecord) :
  run e records = None
  ↔ Forall (λ f, Forall (λ ck, contains f ck.1 = false) (leading e :: others e))
      (get_fields records (tag_of e)).
Proof.
  rewrite run_fold.
  induction (get_fields records (tag_of e)) as [|f fs IH] using rev_ind.
  - split; [constructor|done].
  - rewrite for_each_snoc, step_None, IH, Forall_app, Forall_singleton. done.
Qed.

(** X14: a returned dict has only keys of its extractor, and no value in
    it is [None]: a key is set only under the test that its subfield is
    there. *)
Theorem composite_keys_and_values (e : extractor) (records : MarcRecord)
  (k : string) (v : option string)
  (Hlookup : lookup_key (run e records) k = Some v) :
  is_Some (code_for e k) ∧ is_Some v.
Proof.
  revert v Hlookup. rewrite run_fold.
  induction (get_fields records (tag_of e)) as [|f fs IH] using rev_ind;
    intros v Hlookup; [done|].
  rewrite for_each_snoc, lookup_key_step in Hlookup. simpl in Hlookup.
  assert (Hkept : (if contains f (leading e).1 then None
                   else lookup_key (for_each fs (step e) None) k) = Some v →
                  is_Some (code_for e k) ∧ is_Some v).
  { destruct (contains f (leading e).1); [done|]. apply IH. }
  destruct (code_for e k) as [c|] eqn:Hcode; [|by apply Hkept].
  destruct (contains f c) eqn:Hc; [|by apply Hkept].
  injection Hlookup as <-. split; [done|]. by apply contains_getitem.
Qed.

Lemma composite_keys_and_values_witness :
  let records := [mkField "751" [("a", "Basel"); ("0", "(DE-588)4004617-5")]] in
  lookup_key (get_creation_place records) "gnd" = Some (Some "(DE-588)4004617-5")
  ∧ is_Some (code_for CreationPlace "gnd").
Proof.
  simpl. split; [by vm_compute|].
  exact (proj1 (composite_keys_and_values CreationPlace
                  [mkField "751" [("a", "Basel"); ("0", "(DE-588)4004617-5")]]
                  "gnd" (Some "(DE-588)4004617-5")
                  ltac:(by vm_compute))).
Defined.

(** X15: an occurrence with the leading subfield starts the result anew:
    the result of the record is that of the record from this occurrence
    on, whatever the occurrences before it held. *)
Theorem composite_restart (e : extractor) (before after : MarcRecord)
  (field : Field) (Htag : tag field = tag_of e)
  (Hleading : contains field (leading e).1 = true) :
  run e (before ++ field :: after) = run e (field :: after).
Proof.
  rewrite !run_fold, get_fields_app, !get_fields_cons, !decide_True by done.
  rewrite for_each_app. unfold for_each at 1 3. cbn [fold_left].
  by rewrite (step_leading _ (for_each _ _ _)).
Qed.

Lemma composite_restart_witness :
  get_reproduction_info
    ([mkField "533" [("b", "Basel"); ("d", "1990")]]
       ++ mkField "533" [("a", "Mikrofilm")] :: [mkField "533" [("n", "s/w")]])
  = Some {["type" := Some "Mikrofilm"; "additional" := Some "s/w"]}.
Proof.
  etrans.
  - exact (composite_restart ReproductionInfo
             [mkField "533" [("b", "Basel"); ("d", "1990")]]
             [mkField "533" [("n", "s/w")]] (mkField "533" [("a", "Mikrofilm")])
             eq_refl eq_refl).
  - by vm_compute.
Defined.

End CompositeMore.

(** ** The cache, continued *)

Section FetchMore.
Import Fetch.

Ltac run_get_marc21 :=
  unfold get_marc21, try_except, get_marc21_try, bind, os_path_exists,
    os_path_isfile, os_makedirs, read_file, zoom_search, first_record,
    write_file, stderr_write, exit, ret, raise in *.

Ltac read_file_tests :=
  repeat match goal with
    | H : is_file _ _ = true |- _ => apply is_file_true_inv in H; simpl in H
    | H : is_file _ _ = false |- _ => apply is_file_false_inv in H; simpl in H
    | H : negb _ = true |- _ => apply negb_true_iff in H
    | H : negb _ = false |- _ => apply negb_false_iff in H
    | H : is_Some ?x, H' : ?x = None |- _ => destruct H as [? ?]; congruence
    end.

(** What a fetch can change: it may add the cache directory, and it may
    add the cache file of its identifier when that was missing and the
    fetch returns. *)
Lemma get_marc21_frame (sys_id : string) (w w' : World) (r : outcome bytes) :
  get_marc21 sys_id w = (r, w') →
  (files w' = files w
   ∨ ∃ data, files w !! file_path_of sys_id = None ∧ r = Ret data
             ∧ files w' = <[file_path_of sys_id := data]> (files w))
  ∧ (dirs w' = dirs w ∨ dirs w' = {[cache_path]} ∪ dirs w)
  ∧ io_error w' = io_error w
  ∧ z3950 w' = z3950 w
  ∧ (∀ data, r = Ret data → stderr w' = stderr w).
Proof.
  intros H. run_get_marc21. fold (file_path_of sys_id) in H.
  repeat case_match; simplify_eq; read_file_tests; simpl;
    repeat split; eauto 10; done.
Qed.

Lemma chars_inj (s1 s2 : string) : chars s1 = chars s2 → s1 = s2.
Proof.
  revert s2. induction s1 as [|c s1 IH]; intros [|c' s2] H; try done.
  cbn [chars] in H. injection H as -> H. by rewrite (IH _ H).
Qed.

Lemma chars_append (s1 s2 : string) : chars (s1 +:+ s2) = chars s1 ++ chars s2.
Proof. induction s1 as [|c s1 IH]; simpl; [done|by rewrite IH]. Qed.

Lemma file_path_of_inj (a b : string) : file_path_of a = file_path_of b → a = b.
Proof.
  unfold file_path_of. intros H. apply (f_equal chars) in H.
  rewrite !chars_append in H.
  apply app_inv_head, app_inv_head, app_inv_tail in H. by apply chars_inj.
Qed.

Lemma path_exists_mono (w w' : World) (p : string) :
  (dirs w' = dirs w ∨ dirs w' = {[cache_path]} ∪ dirs w) →
  (files w' = files w ∨ ∃ q data, files w' = <[q := data]> (files w)) →
  path_exists w p = true → path_exists w' p = true.
Proof.
  unfold path_exists. rewrite !orb_true_iff, !bool_decide_eq_true.
  intros Hd Hf [Hdir | Hfile].
  - left. destruct Hd as [-> | ->]; [done|]. apply elem_of_union. by right.
  - right. destruct Hf as [-> | (q & data & ->)]; [done|].
    destruct (decide (q = p)) as [->|Hne].
    + rewrite lookup_insert_eq. eauto.
    + by rewrite lookup_insert_ne.
Qed.

(** X16: whatever its outcome, a fetch leaves every file but the cache
    file of its identifier as it was, overwrites no cache file that is
    there, makes no directory but the cache directory and removes none;
    a fetch that returns writes nothing to stderr. *)
Theorem fetch_frame (sys_id : string) (w : World) :
  let w' := (get_marc21 sys_id w).2 in
  (∀ p, p ≠ file_path_of sys_id → files w' !! p = files w !! p)
  ∧ (is_Some (files w !! file_path_of sys_id) → files w' = files w)
  ∧ dirs w ⊆ dirs w'
  ∧ dirs w' ⊆ {[cache_path]} ∪ dirs w
  ∧ (∀ data, (get_marc21 sys_id w).1 = Ret data → stderr w' = stderr w).
Proof.
  destruct (get_marc21 sys_id w) as [r w'] eqn:H. simpl.
  destruct (get_marc21_frame _ _ _ _ H) as (Hf & Hd & _ & _ & Herr).
  split; [|split; [|split; [|split]]].
  - intros p Hp. destruct Hf as [-> | (data & _ & _ & ->)]; [done|].
    by rewrite lookup_insert_ne.
  - intros [old Hold]. destruct Hf as [-> | (data & Hnone & _)]; [done|].
    congruence.
  - destruct Hd as [-> | ->]; [done|]. apply union_subseteq_r.
  - destruct Hd as [-> | ->]; [apply union_subseteq_r|done].
  - done.
Qed.




(** X19: a fetch of one identifier, whatever its outcome, keeps the cache
    entry of every other identifier: what was cached stays cached with
    the same bytes. *)
Theorem fetch_keeps_other_entries (sys_id other : string) (w : World)
  (data : bytes) (Hcached : cached w other data) (Hother : other ≠ sys_id) :
  cached (get_marc21 sys_id w).2 other data.
Proof.
  destruct (get_marc21 sys_id w) as [r w'] eqn:H. simpl.
  destruct (get_marc21_frame _ _ _ _ H) as (Hf & Hd & Hio & _ & _).
  destruct Hcached as (Hroot & Hfile & Hopen).
  assert (Hpath : file_path_of other ≠ file_path_of sys_id).
  { intros Heq. by apply Hother, file_path_of_inj. }
  split; [|split].
  - apply (path_exists_mono w); [done| |done].
    destruct Hf as [-> | (d & _ & _ & ->)]; eauto.
  - destruct Hf as [-> | (d & _ & _ & ->)]; [done|].
    by rewrite lookup_insert_ne.
  - by rewrite Hio.
Qed.

Lemma fetch_keeps_other_entries_witness :
  let w0 := mkWorld ∅ ∅ (λ _, None) (λ _, inr [[x4d; x41; x52; x43]]) [] [] in
  let w1 := (get_marc21 "000123456" w0).2 in
  cached w1 "000123456" [x4d; x41; x52; x43]
  ∧ cached (get_marc21 "000999999" (with_server unreachable w1)).2
      "000123456" [x4d; x41; x52; x43].
Proof.
  simpl.
  assert (Hc : cached
                 (get_marc21 "000123456"
                    (mkWorld ∅ ∅ (λ _, None) (λ _, inr [[x4d; x41; x52; x43]]) [] [])).2
                 "000123456" [x4d; x41; x52; x43]).
  { by repeat split; vm_compute. }
  split; [exact Hc|].
  apply (fetch_keeps_other_entries "000999999" "000123456").
  - by apply cached_with_server.
  - done.
Defined.

(** X20: a search that fails or finds nothing leaves no cache file
    behind, so nothing is remembered of the failure: the next fetch of
    the identifier asks the server again and returns what it then
    finds. *)
Theorem fetch_retries_after_failed_search (sys_id : string) (w : World)
  (Hmiss : files w !! file_path_of sys_id = None)
  (Hready : cache_ready w)
  (Hfailed : (∃ e, z3950 w ("@attr 1=1032 " +:+ sys_id) = inl e)
             ∨ z3950 w ("@attr 1=1032 " +:+ sys_id) = inr []) :
  let w' := (get_marc21 sys_id w).2 in
  (get_marc21 sys_id w).1 = Exit 1
  ∧ files w' !! file_path_of sys_id = None
  ∧ ∀ z data rest,
      z ("@attr 1=1032 " +:+ sys_id) = inr (data :: rest) →
      io_error w (file_path_of sys_id) = None →
      (get_marc21 sys_id (with_server z w')).1 = Ret data.
Proof.
  assert (Hfail : ∃ e, fetch_failure sys_id w e).
  { destruct Hfailed as [[e He] | Hempty].
    - exists e. by apply search_fails.
    - eexists. by apply search_empty. }
  destruct Hfail as [e Hfail].
  destruct (get_marc21_failure _ _ _ Hfail) as (w' & Hrun & _ & Hfiles).
  destruct (get_marc21_frame _ _ _ _ Hrun) as (_ & Hd & Hio & _ & _).
  rewrite Hrun. simpl. split; [done|]. split; [by rewrite Hfiles|].
  intros z data rest Hz Hopen.
  erewrite get_marc21_miss; [done| | | |exact Hz].
  - simpl. by rewrite Hfiles.
  - destruct Hready as [Hroot | Hmk].
    + left. apply (path_exists_mono w); [done| |done]. left. simpl. done.
    + right. simpl. by rewrite Hio.
  - simpl. by rewrite Hio.
Qed.

Lemma fetch_retries_after_failed_search_witness :
  let w := mkWorld ∅ ∅ (λ _, None) unreachable [] [] in
  let w' := (get_marc21 "000123456" w).2 in
  (get_marc21 "000123456" w).1 = Exit 1
  ∧ (get_marc21 "000123456"
       (with_server (λ _, inr [[x4d; x41; x52; x43]]) w')).1
    = Ret [x4d; x41; x52; x43].
Proof.
  simpl.
  pose proof (fetch_retries_after_failed_search "000123456"
                (mkWorld ∅ ∅ (λ _, None) unreachable [] [])
                eq_refl (or_intror eq_refl)
                (or_introl (ex_intro _ "Connection refused" eq_refl)))
    as (Hexit & _ & Hretry).
  split; [exact Hexit|].
  exact (Hretry (λ _, inr [[x4d; x41; x52; x43]]) [x4d; x41; x52; x43] []
           eq_refl eq_refl).
Defined.

End FetchMore.
